(** * TicketService: validation, pricing and seat reservation

    A shallow embedding of [src/pairtest/TicketService.js].  A ticket count is
    an integer-valued JavaScript number, given by the integer; the numbers the
    service computes from counts are doubles, so sums and products are
    rounded to the nearest double and may overflow to an infinity.  The price
    table is the object literal [ticketTypes], a finite map keyed by strings
    whose lookups fall back to [Object.prototype]; synchronous exceptions are
    an explicit [completion]; the two collaborators act on an abstract world
    and every call to them is logged. *)

From Stdlib Require Import ZArith.
From stdpp Require Import base decidable option list strings pretty gmap.

Local Open Scope string_scope.
Local Open Scope list_scope.
Local Open Scope Z_scope.

(** ** JavaScript values that occur in the service *)

Module JS.

(** A number that arithmetic on integers can produce: an integer-valued
    double, an infinity, or [NaN]. *)
Inductive number :=
| Num (z : Z)
| Infinity
| NegInfinity
| NaN.

(** A value read from a property: a number, or [undefined]. *)
Inductive value :=
| VNumber (n : number)
| VUndefined.

Definition ToNumber (v : value) : number :=
  match v with
  | VNumber n => n
  | VUndefined => NaN
  end.

(** Number.MAX_SAFE_INTEGER, 2^53 - 1. *)
Definition MAX_SAFE_INTEGER : Z := 9007199254740991.

(** The multiple of [u] nearest to [a], the even multiple on a tie. *)
Definition nearestMultiple (u a : Z) : Z :=
  let q := a / u in
  let r := a mod u in
  if 2 * r <? u then q * u
  else if u <? 2 * r then (q + 1) * u
  else if Z.even q then q * u else (q + 1) * u.

(** The spacing of the doubles around a non-negative integer [a]: 1 up to
    2^53, then doubling with every binade. *)
Definition ulp (a : Z) : Z := 2 ^ Z.max 0 (Z.log2 a - 52).

(** A non-negative integer rounded to 53 significant bits, ties to even. *)
Definition roundNearestEven (a : Z) : Z := nearestMultiple (ulp a) a.

(** The double nearest to an integer: the result of an exact integer sum or
    product once stored in a number.  Magnitudes that round to 2^1024 or more
    overflow. *)
Definition nearestDouble (z : Z) : number :=
  let m := roundNearestEven (Z.abs z) in
  if 2 ^ 1024 <=? m then (if z <? 0 then NegInfinity else Infinity)
  else Num (Z.sgn z * m).

(** [a + b] *)
Definition add (a b : number) : number :=
  match a, b with
  | NaN, _ | _, NaN => NaN
  | Infinity, NegInfinity | NegInfinity, Infinity => NaN
  | Infinity, _ | _, Infinity => Infinity
  | NegInfinity, _ | _, NegInfinity => NegInfinity
  | Num x, Num y => nearestDouble (x + y)
  end.

(** [a * b] *)
Definition mul (a b : number) : number :=
  match a, b with
  | NaN, _ | _, NaN => NaN
  | Num x, Num y => nearestDouble (x * y)
  | Infinity, Num y | Num y, Infinity =>
      if y =? 0 then NaN else if 0 <? y then Infinity else NegInfinity
  | NegInfinity, Num y | Num y, NegInfinity =>
      if y =? 0 then NaN else if 0 <? y then NegInfinity else Infinity
  | Infinity, Infinity | NegInfinity, NegInfinity => Infinity
  | Infinity, NegInfinity | NegInfinity, Infinity => NegInfinity
  end.

(** [a === b] on numbers *)
Definition strictEquals (a b : number) : bool :=
  match a, b with
  | Num x, Num y => x =? y
  | Infinity, Infinity | NegInfinity, NegInfinity => true
  | _, _ => false
  end.

(** [a < b] and [a <= b] on numbers *)
Definition ltb (a b : number) : bool :=
  match a, b with
  | NaN, _ | _, NaN => false
  | Num x, Num y => x <? y
  | _, NegInfinity | Infinity, _ => false
  | NegInfinity, _ | _, Infinity => true
  end.

Definition leb (a b : number) : bool :=
  match a, b with
  | NaN, _ | _, NaN => false
  | Num x, Num y => x <=? y
  | NegInfinity, _ | _, Infinity => true
  | _, NegInfinity | Infinity, _ => false
  end.

(** The own string-keyed properties of [Object.prototype], which every
    object literal inherits: all of them hold objects (functions, or the
    prototype itself for [__proto__]), hence truthy values. *)
Definition ObjectPrototype : list string :=
  [ "constructor"; "hasOwnProperty"; "isPrototypeOf";
    "propertyIsEnumerable"; "toLocaleString"; "toString"; "valueOf";
    "__proto__"; "__defineGetter__"; "__defineSetter__";
    "__lookupGetter__"; "__lookupSetter__" ].

(** The result of [o[k]] on an object literal [o]. *)
Inductive property (A : Type) :=
| Own (a : A)
| Inherited
| Missing.
Arguments Own {A} a.
Arguments Inherited {A}.
Arguments Missing {A}.

Definition Get {A} (o : gmap string A) (k : string) : property A :=
  match o !! k with
  | Some a => Own a
  | None => if bool_decide (k ∈ ObjectPrototype) then Inherited else Missing
  end.

(** Truthiness of a looked-up property: only [undefined] is falsy. *)
Definition truthy {A} (p : property A) : bool :=
  match p with
  | Missing => false
  | _ => true
  end.

(** Exceptions: the built-in [Error] and the imported
    [InvalidPurchaseException], each carrying a message. *)
Inductive exn :=
| Error (message : string)
| InvalidPurchaseException (message : string).

Definition message (e : exn) : string :=
  match e with
  | Error m => m
  | InvalidPurchaseException m => m
  end.

(** How a synchronous call completes. *)
Inductive completion (A : Type) :=
| Return (a : A)
| Throw (e : exn).
Arguments Return {A} a.
Arguments Throw {A} e.

(** Array.prototype.reduce with a callback that may throw. *)
Fixpoint reduce {A B} (f : B -> A -> completion B) (l : list A) (acc : B) : completion B :=
  match l with
  | [] => Return acc
  | x :: l' =>
      match f acc x with
      | Return acc' => reduce f l' acc'
      | Throw e => Throw e
      end
  end.

(** Array.prototype.find and Array.prototype.some *)
Definition find {A} (p : A -> bool) (l : list A) : option A := List.find p l.
Definition some {A} (p : A -> bool) (l : list A) : bool := existsb p l.

(** How a promise settles. *)
Inductive settled :=
| Fulfilled
| Rejected (error : exn).

End JS.
Export JS.

(** ** Data model *)

(** class TicketType *)
Record TicketType := mkTicketType { type : string; price : Z }.

(** A ticket type request as the service destructures it:
    [{ getTicketType, noOfTickets }], the count an integer. *)
Record TicketTypeRequest := mkRequest {
  getTicketType : string;
  noOfTickets : Z
}.

Definition maxTicketsLimit : Z := 20.

Definition ticketTypes : gmap string TicketType :=
  <["ADULT" := mkTicketType "ADULT" 20]>
    (<["CHILD" := mkTicketType "CHILD" 10]>
       (<["INFANT" := mkTicketType "INFANT" 0]> ∅)).

(** ** Pure operations *)

(** _calculateTotalTickets:
    [reduce((acc, { noOfTickets }) => acc + noOfTickets, 0)] *)
Definition _calculateTotalTickets (ticketTypeRequests : list TicketTypeRequest) : number :=
  fold_left (fun acc r => add acc (Num (noOfTickets r))) ticketTypeRequests (Num 0).

(** The three messages of _validatePurchase. *)
Definition maxTicketsMessage : string :=
  "Maximum of " +:+ pretty maxTicketsLimit +:+ " tickets can be purchased at a time".
Definition noTicketsMessage : string := "No tickets selected".
Definition adultRequiredMessage : string :=
  "Child and Infant tickets cannot be purchased without purchasing an Adult ticket".

(** _validatePurchase *)
Definition _validatePurchase (ticketTypeRequests : list TicketTypeRequest) : completion unit :=
  let totalTickets := _calculateTotalTickets ticketTypeRequests in
  if Z.of_nat (length ticketTypeRequests) >? maxTicketsLimit then
    Throw (Error maxTicketsMessage)
  else if strictEquals totalTickets (Num 0) then
    Throw (Error noTicketsMessage)
  else
    let adultTickets :=
      find (fun r => String.eqb (getTicketType r) "ADULT") ticketTypeRequests in
    let hasChildOrInfantWithoutAdult :=
      some (fun r =>
              (String.eqb (getTicketType r) "CHILD" || String.eqb (getTicketType r) "INFANT")
              && (noOfTickets r >? 0)
              && negb (match adultTickets with Some _ => true | None => false end))
           ticketTypeRequests in
    if hasChildOrInfantWithoutAdult then
      Throw (Error adultRequiredMessage)
    else Return tt.

(** _getTicketPrice *)
Definition _getTicketPrice (ticketType : string) : completion value :=
  let ticketTypeObj := Get ticketTypes ticketType in
  if negb (truthy ticketTypeObj) then
    Throw (InvalidPurchaseException ("Invalid ticket type: " +:+ ticketType))
  else
    Return (match ticketTypeObj with
            | Own t => VNumber (Num (price t))
            | _ => VUndefined
            end).

(** The seat count computed by _reserveSeats (its local [seatsToReserve]). *)
Definition seatsToReserve (ticketTypeRequests : list TicketTypeRequest) : number :=
  fold_left
    (fun acc r =>
       let ticketType := getTicketType r in
       let seatsRequired :=
         if String.eqb ticketType "ADULT" || String.eqb ticketType "CHILD"
         then Num (noOfTickets r) else Num 0 in
       add acc seatsRequired)
    ticketTypeRequests (Num 0).

(** ** The service with its two collaborators *)

(** What the caller of purchase observes: an exception thrown by the call
    itself, or the promise it returns. *)
Inductive outcome :=
| Thrown (e : exn)
| Promise (r : settled).

Section Service.

(** Account identifiers are opaque.  Each collaborator returns a promise,
    given here by the way it settles, and acts on a world that the service
    itself never inspects. *)
Context {AccountId World : Type}.
Variable ticketPaymentService_pay : AccountId -> number -> World -> World * settled.
Variable seatReservationService_reserveSeats : number -> World -> World * settled.

(** _calculateTotalPrice *)
Definition _calculateTotalPrice (accountId : AccountId)
    (ticketTypeRequests : list TicketTypeRequest) : completion number :=
  reduce
    (fun acc r =>
       match _getTicketPrice (getTicketType r) with
       | Return price => Return (add acc (mul (Num (noOfTickets r)) (ToNumber price)))
       | Throw e => Throw e
       end)
    ticketTypeRequests (Num 0).

(** A call received by a collaborator. *)
Inductive call :=
| Pay (accountId : AccountId) (amount : number)
| ReserveSeats (seats : number).

Record state := mkState { world : World; calls : list call }.

(** Computations that call collaborators. *)
Definition M (A : Type) : Type := state -> A * state.

Definition ret {A} (a : A) : M A := fun s => (a, s).
Definition bind {A B} (m : M A) (k : A -> M B) : M B :=
  fun s => let (a, s') := m s in k a s'.

Definition pay (accountId : AccountId) (totalPrice : number) : M settled :=
  fun s =>
    let (w, r) := ticketPaymentService_pay accountId totalPrice (world s) in
    (r, mkState w (calls s ++ [Pay accountId totalPrice])).

Definition reserveSeats (seats : number) : M settled :=
  fun s =>
    let (w, r) := seatReservationService_reserveSeats seats (world s) in
    (r, mkState w (calls s ++ [ReserveSeats seats])).

(** [p.then(onFulfilled)] and [p.catch(onRejected)] *)
Definition then_ (p : M settled) (onFulfilled : M settled) : M settled :=
  bind p (fun r => match r with
                   | Fulfilled => onFulfilled
                   | Rejected error => ret (Rejected error)
                   end).

Definition catch_ (p : M settled) (onRejected : exn -> M settled) : M settled :=
  bind p (fun r => match r with
                   | Fulfilled => ret Fulfilled
                   | Rejected error => onRejected error
                   end).

(** _reserveSeats *)
Definition _reserveSeats (ticketTypeRequests : list TicketTypeRequest) : M settled :=
  reserveSeats (seatsToReserve ticketTypeRequests).

(** purchase *)
Definition purchase (accountId : AccountId)
    (ticketTypeRequests : list TicketTypeRequest) : M outcome :=
  match _validatePurchase ticketTypeRequests with
  | Throw e => ret (Thrown e)
  | Return _ =>
      match _calculateTotalPrice accountId ticketTypeRequests with
      | Throw e => ret (Thrown e)
      | Return totalPrice =>
          bind
            (catch_
               (then_ (pay accountId totalPrice) (_reserveSeats ticketTypeRequests))
               (fun error => ret (Rejected (InvalidPurchaseException (message error)))))
            (fun r => ret (Promise r))
      end
  end.

End Service.

Arguments call : clear implicits.
Arguments state : clear implicits.

(** ** The rules of validation as the specification words them *)

Definition sumZ (l : list Z) : Z := foldr Z.add 0 l.

(** The categories that validation singles out. *)
Abbreviation isAdult r := (getTicketType r = "ADULT").
Abbreviation isChildOrInfant r :=
  (getTicketType r = "CHILD" ∨ getTicketType r = "INFANT").

Inductive rule := CountLimit | NotEmpty | AdultAccompaniment.

(** The order in which the rules are listed. *)
Definition rules : list rule := [CountLimit; NotEmpty; AdultAccompaniment].

(** When a request list violates a rule: the total ticket count must not
    exceed 20; the total ticket count must be at least 1; no CHILD or INFANT
    request with a count above 0 without an ADULT request. *)
Definition violates (l : list TicketTypeRequest) (r : rule) : bool :=
  match r with
  | CountLimit => bool_decide (maxTicketsLimit < sumZ (noOfTickets <$> l))
  | NotEmpty => bool_decide (sumZ (noOfTickets <$> l) < 1)
  | AdultAccompaniment =>
      bool_decide (Exists (λ r, isChildOrInfant r ∧ 0 < noOfTickets r) l
                   ∧ Forall (λ r, ¬ isAdult r) l)
  end.

Definition ruleMessage (r : rule) : string :=
  match r with
  | CountLimit => maxTicketsMessage
  | NotEmpty => noTicketsMessage
  | AdultAccompaniment => adultRequiredMessage
  end.

Definition firstViolated (l : list TicketTypeRequest) : option rule :=
  List.find (violates l) rules.

(** Request lists on which the service's arithmetic is exact: the counts,
    added up in absolute value, stay within the safe integers, so that every
    partial sum of counts does; likewise for 20 times the counts, which
    bounds every price the service adds up. *)
Definition safeCounts (l : list TicketTypeRequest) : Prop :=
  sumZ ((λ r, Z.abs (noOfTickets r)) <$> l) ≤ MAX_SAFE_INTEGER.
Definition safePrices (l : list TicketTypeRequest) : Prop :=
  20 * sumZ ((λ r, Z.abs (noOfTickets r)) <$> l) ≤ MAX_SAFE_INTEGER.

(** A number that is a double: an integer that rounding leaves unchanged. *)
Definition isDouble (x : number) : Prop :=
  match x with
  | Num z => nearestDouble z = Num z
  | _ => True
  end.

(** The price of a category of the table (0 outside it). *)
Definition priceOf (ticketType : string) : Z :=
  from_option price 0 (ticketTypes !! ticketType).

(** The amounts of the payment calls in a log. *)
Definition paidAmounts {AccountId} (cs : list (call AccountId)) : list number :=
  omap (λ c, match c with Pay _ amount => Some amount | ReserveSeats _ => None end) cs.

(** Collaborators for concrete runs, in the manner of the test stubs: the
    world counts the calls received, and a stub resolves or rejects whatever
    its arguments. *)
Definition stub_resolves {A : Type} : A -> nat -> nat * settled :=
  fun _ callCount => (S callCount, Fulfilled).
Definition stub_rejects {A : Type} (error : exn) : A -> nat -> nat * settled :=
  fun _ callCount => (S callCount, Rejected error).

(** A failure in the uniform shape: a rejected promise that carries an
    InvalidPurchaseException. *)
Definition rejectedWithPurchaseException (o : outcome) : Prop :=
  ∃ m, o = Promise (Rejected (InvalidPurchaseException m)).

(** ** Rounding to the nearest double *)

Lemma nearestMultiple_cases u a :
  0 < u →
  nearestMultiple u a = a / u * u ∨ nearestMultiple u a = (a / u + 1) * u.
Proof.
  intros Hu. unfold nearestMultiple.
  repeat match goal with |- context [if ?b then _ else _] => destruct b end; auto.
Qed.

Lemma nearestMultiple_exact u a : 0 < u → a mod u = 0 → nearestMultiple u a = a.
Proof.
  intros Hu Hr. unfold nearestMultiple. rewrite Hr.
  destruct (Z.ltb_spec (2 * 0) u); [|lia].
  pose proof (Z.div_mod a u). lia.
Qed.

Lemma nearestMultiple_mono u a b :
  0 < u → a ≤ b → nearestMultiple u a ≤ nearestMultiple u b.
Proof.
  intros Hu Hab.
  pose proof (Z.div_mod a u ltac:(lia)) as Ha.
  pose proof (Z.div_mod b u ltac:(lia)) as Hb.
  pose proof (Z.mod_pos_bound a u Hu) as Hra.
  pose proof (Z.mod_pos_bound b u Hu) as Hrb.
  assert (Hq : a / u ≤ b / u) by (apply Z.div_le_mono; lia).
  destruct (decide (a / u = b / u)) as [Heq|Hne].
  - unfold nearestMultiple. rewrite <- Heq in *.
    assert (a mod u ≤ b mod u) by lia.
    repeat match goal with
           | |- context [?x <? ?y] => destruct (Z.ltb_spec x y)
           | |- context [Z.even ?q] => destruct (Z.even q)
           end; nia.
  - assert (a / u + 1 ≤ b / u) by lia.
    destruct (nearestMultiple_cases u a Hu) as [->| ->],
             (nearestMultiple_cases u b Hu) as [->| ->]; nia.
Qed.

Lemma ulp_pos a : 0 < ulp a.
Proof. unfold ulp. apply Z.pow_pos_nonneg; lia. Qed.

Lemma ulp_small a : a < 2 ^ 53 → ulp a = 1.
Proof.
  intros Ha. unfold ulp.
  destruct (Z.le_gt_cases a 0) as [Hle|Hpos].
  - rewrite (Z.log2_nonpos a Hle). reflexivity.
  - assert (Z.log2 a < 53) by (apply Z.log2_lt_pow2; lia).
    rewrite Z.max_l by lia. reflexivity.
Qed.

Lemma ulp_large a : 2 ^ 53 ≤ a → ulp a = 2 ^ (Z.log2 a - 52) ∧ 53 ≤ Z.log2 a.
Proof.
  intros Ha. assert (53 ≤ Z.log2 a).
  { apply Z.log2_le_pow2; lia. }
  unfold ulp. by rewrite Z.max_r by lia.
Qed.

Lemma roundNearestEven_small a : 0 ≤ a ≤ 2 ^ 53 → roundNearestEven a = a.
Proof.
  intros [H0 H1]. destruct (decide (a = 2 ^ 53)) as [->|Hne]; [by vm_compute|].
  unfold roundNearestEven. rewrite ulp_small by lia.
  apply nearestMultiple_exact; [lia|]. apply Z.mod_1_r.
Qed.

(** A rounded value stays in the binade of its argument. *)
Lemma roundNearestEven_binade a :
  0 < a →
  roundNearestEven a mod ulp a = 0
  ∧ 2 ^ Z.log2 a ≤ roundNearestEven a ≤ 2 ^ (Z.log2 a + 1).
Proof.
  intros Hpos. pose proof (Z.log2_spec a Hpos) as [Hlo Hhi].
  replace (Z.succ (Z.log2 a)) with (Z.log2 a + 1) in Hhi by lia.
  destruct (Z.lt_ge_cases a (2 ^ 53)) as [Hs|Hl].
  - rewrite roundNearestEven_small by lia. rewrite ulp_small by done.
    split; [apply Z.mod_1_r | lia].
  - destruct (ulp_large a Hl) as [Hu Hk]. unfold roundNearestEven.
    pose proof (ulp_pos a) as Hupos. set (u := ulp a) in *.
    assert (Hpk : 2 ^ Z.log2 a = 2 ^ 52 * u).
    { rewrite Hu, <- Z.pow_add_r by lia. f_equal. lia. }
    assert (Hpk1 : 2 ^ (Z.log2 a + 1) = 2 ^ 53 * u).
    { rewrite Hu, <- Z.pow_add_r by lia. f_equal. lia. }
    rewrite Hpk, Hpk1 in *.
    assert (Hq : 2 ^ 52 ≤ a / u < 2 ^ 53).
    { split; [apply Z.div_le_lower_bound; lia | apply Z.div_lt_upper_bound; lia]. }
    destruct (nearestMultiple_cases u a Hupos) as [-> | ->].
    + split; [apply Z.mod_mul; lia | nia].
    + split; [apply Z.mod_mul; lia | nia].
Qed.

Lemma roundNearestEven_nonneg a : 0 ≤ a → 0 ≤ roundNearestEven a.
Proof.
  intros Ha. destruct (decide (a = 0)) as [->|]; [by vm_compute|].
  pose proof (roundNearestEven_binade a ltac:(lia)) as (_ & Hlo & _).
  pose proof (Z.pow_pos_nonneg 2 (Z.log2 a) ltac:(lia) (Z.log2_nonneg a)). lia.
Qed.

Lemma roundNearestEven_mono a b :
  0 ≤ a ≤ b → roundNearestEven a ≤ roundNearestEven b.
Proof.
  intros [Ha Hab]. destruct (decide (a = 0)) as [->|Hne].
  { change (roundNearestEven 0) with 0. apply roundNearestEven_nonneg. lia. }
  pose proof (Z.log2_le_mono a b Hab) as Hlog.
  destruct (decide (Z.log2 a = Z.log2 b)) as [Heq|Hlt].
  - unfold roundNearestEven, ulp. rewrite Heq.
    apply nearestMultiple_mono; [apply Z.pow_pos_nonneg; lia | done].
  - pose proof (roundNearestEven_binade a ltac:(lia)) as (_ & _ & Hhi).
    pose proof (roundNearestEven_binade b ltac:(lia)) as (_ & Hlo & _).
    assert (2 ^ (Z.log2 a + 1) ≤ 2 ^ Z.log2 b).
    { apply Z.pow_le_mono_r; [lia|]. lia. }
    lia.
Qed.

Lemma roundNearestEven_idemp a :
  0 ≤ a → roundNearestEven (roundNearestEven a) = roundNearestEven a.
Proof.
  intros Ha. destruct (Z.lt_ge_cases a (2 ^ 53)) as [Hs|Hl].
  { by rewrite !(roundNearestEven_small a) by lia. }
  destruct (roundNearestEven_binade a ltac:(lia)) as (Hmod & Hlo & Hhi).
  destruct (ulp_large a Hl) as [Hu Hk].
  set (r := roundNearestEven a) in *.
  assert (Hr53 : 2 ^ 53 ≤ r).
  { assert (2 ^ 53 ≤ 2 ^ Z.log2 a) by (apply Z.pow_le_mono_r; lia). lia. }
  unfold roundNearestEven at 1. apply nearestMultiple_exact; [apply ulp_pos|].
  destruct (ulp_large r Hr53) as [Hur _]. rewrite Hur.
  destruct (decide (r = 2 ^ (Z.log2 a + 1))) as [Hmax|Hnmax].
  - rewrite Hmax, Z.log2_pow2 by lia.
    assert (2 ^ (Z.log2 a + 1) = 2 ^ 52 * 2 ^ (Z.log2 a + 1 - 52)) as ->.
    { rewrite <- Z.pow_add_r by lia. f_equal. lia. }
    apply Z.mod_mul. apply Z.pow_nonzero; lia.
  - assert (Z.log2 r = Z.log2 a) as ->.
    { apply Z.log2_unique; [apply Z.log2_nonneg|].
      replace (Z.succ (Z.log2 a)) with (Z.log2 a + 1) by lia. lia. }
    by rewrite <- Hu.
Qed.

Lemma nearestDouble_exact (z : Z) :
  Z.abs z ≤ MAX_SAFE_INTEGER + 1 → nearestDouble z = Num z.
Proof.
  intros Hz. unfold nearestDouble.
  rewrite roundNearestEven_small by (change (2 ^ 53) with (MAX_SAFE_INTEGER + 1); lia).
  destruct (Z.leb_spec (2 ^ 1024) (Z.abs z)) as [Hbig|_].
  - assert (MAX_SAFE_INTEGER + 1 < 2 ^ 1024) by (by vm_compute). lia.
  - f_equal. lia.
Qed.

Lemma nearestDouble_isDouble (z : Z) : isDouble (nearestDouble z).
Proof.
  unfold nearestDouble.
  destruct (Z.leb_spec (2 ^ 1024) (roundNearestEven (Z.abs z))) as [Hbig|Hsmall].
  { by destruct (z <? 0). }
  pose proof (roundNearestEven_nonneg (Z.abs z) (Z.abs_nonneg z)) as Hnn.
  cbn [isDouble]. unfold nearestDouble.
  assert (Habs : Z.abs (Z.sgn z * roundNearestEven (Z.abs z)) = roundNearestEven (Z.abs z)).
  { destruct (Z.sgn_spec z) as [[? ->]|[[? ->]|[? ->]]]; try lia.
    subst z. by vm_compute. }
  rewrite Habs, roundNearestEven_idemp by apply Z.abs_nonneg.
  destruct (Z.leb_spec (2 ^ 1024) (roundNearestEven (Z.abs z))); [lia|].
  f_equal. destruct (Z.sgn_spec z) as [[? ->]|[[? ->]|[? ->]]]; lia.
Qed.

Lemma add_isDouble (a b : number) : isDouble (add a b).
Proof. destruct a, b; cbn; try done; apply nearestDouble_isDouble. Qed.

Lemma add_0_r (a : number) : isDouble a → add a (Num 0) = a.
Proof. destruct a; cbn; try done. by rewrite Z.add_0_r. Qed.

(** Rounding keeps the order of non-negative integers. *)
Lemma nearestDouble_mono (x y : Z) :
  0 ≤ x ≤ y → leb (nearestDouble x) (nearestDouble y) = true.
Proof.
  intros [Hx Hxy]. unfold nearestDouble.
  rewrite !Z.abs_eq by lia.
  pose proof (roundNearestEven_mono x y (conj Hx Hxy)) as Hm.
  pose proof (roundNearestEven_nonneg x Hx) as Hnx.
  destruct (Z.ltb_spec x 0); [lia|]. destruct (Z.ltb_spec y 0); [lia|].
  destruct (Z.leb_spec (2 ^ 1024) (roundNearestEven y)) as [Hby|Hsy].
  { by destruct (2 ^ 1024 <=? roundNearestEven x). }
  destruct (Z.leb_spec (2 ^ 1024) (roundNearestEven x)) as [Hbx|Hsx]; [lia|].
  cbn [leb]. apply Z.leb_le.
  destruct (Z.sgn_spec x) as [[? ->]|[[<- _]|[? _]]],
           (Z.sgn_spec y) as [[? ->]|[[<- _]|[? _]]]; lia.
Qed.

(** ** Sums of counts *)

Lemma sumZ_cons (x : Z) (l : list Z) : sumZ (x :: l) = x + sumZ l.
Proof. reflexivity. Qed.

Lemma sumZ_app (l1 l2 : list Z) : sumZ (l1 ++ l2) = sumZ l1 + sumZ l2.
Proof.
  induction l1 as [|x l1 IH]; [done|].
  cbn [app]. rewrite !sumZ_cons, IH. lia.
Qed.

Lemma sumZ_Permutation (l1 l2 : list Z) : l1 ≡ₚ l2 → sumZ l1 = sumZ l2.
Proof.
  induction 1 as [|x l1 l2 _ IH|x y l|l1 l2 l3 _ IH1 _ IH2];
    rewrite ?sumZ_cons; [done | by rewrite IH | lia | congruence].
Qed.

Lemma sumZ_abs_nonneg {A} (f : A -> Z) (l : list A) :
  0 ≤ sumZ ((λ x, Z.abs (f x)) <$> l).
Proof. induction l as [|x l IH]; [done|]. rewrite fmap_cons, sumZ_cons. lia. Qed.

(** Adding up integers whose absolute values stay within the safe integers
    is exact. *)
Lemma fold_left_add_exact {A} (f : A -> Z) (l : list A) (acc : Z) :
  Z.abs acc + sumZ ((λ x, Z.abs (f x)) <$> l) ≤ MAX_SAFE_INTEGER →
  fold_left (fun a x => add a (Num (f x))) l (Num acc) = Num (acc + sumZ (f <$> l)).
Proof.
  revert acc. induction l as [|x l IH]; intros acc Hsafe.
  - cbn. f_equal. lia.
  - rewrite !fmap_cons, !sumZ_cons in *. cbn [fold_left add].
    pose proof (sumZ_abs_nonneg f l).
    rewrite nearestDouble_exact by lia.
    rewrite IH by lia. f_equal. lia.
Qed.

Lemma calculateTotalTickets_exact l :
  safeCounts l → _calculateTotalTickets l = Num (sumZ (noOfTickets <$> l)).
Proof.
  intros Hsafe. unfold _calculateTotalTickets.
  rewrite (fold_left_add_exact noOfTickets) by (cbn; exact Hsafe).
  by rewrite Z.add_0_l.
Qed.

(** The seats of one request. *)
Lemma seatsToReserve_fold l :
  seatsToReserve l
  = fold_left
      (fun acc r =>
         add acc (Num (if decide (getTicketType r = "ADULT" ∨ getTicketType r = "CHILD")
                       then noOfTickets r else 0)))
      l (Num 0).
Proof.
  unfold seatsToReserve. generalize (Num 0) at 2 3.
  induction l as [|r l IH]; intros acc; [done|]. cbn [fold_left]. rewrite IH.
  do 2 f_equal.
  destruct (String.eqb_spec (getTicketType r) "ADULT"),
           (String.eqb_spec (getTicketType r) "CHILD");
    cbn [orb]; case_decide; tauto.
Qed.

Lemma seatsToReserve_exact l :
  safeCounts l →
  seatsToReserve l
  = Num (sumZ (noOfTickets <$>
                 filter (λ r, getTicketType r = "ADULT" ∨ getTicketType r = "CHILD") l)).
Proof.
  intros Hsafe. rewrite seatsToReserve_fold, fold_left_add_exact.
  - f_equal. rewrite Z.add_0_l. clear Hsafe. induction l as [|r l IH]; [done|].
    rewrite fmap_cons, filter_cons, sumZ_cons, IH.
    case_decide; rewrite ?fmap_cons, ?sumZ_cons; lia.
  - unfold safeCounts in Hsafe. cbn [Z.abs Z.add].
    etransitivity; [|exact Hsafe]. clear Hsafe.
    induction l as [|r l IH]; [done|]. rewrite !fmap_cons, !sumZ_cons.
    case_decide; lia.
Qed.

(** ** The tests of _validatePurchase *)

Lemma find_adult_Some l :
  (match find (fun r => String.eqb (getTicketType r) "ADULT") l with
   | Some _ => true | None => false end) = bool_decide (Exists (λ r, isAdult r) l).
Proof.
  unfold find. induction l as [|x l IH]; cbn [List.find].
  - symmetry. apply bool_decide_eq_false. intros H. by apply Exists_nil in H.
  - destruct (String.eqb_spec (getTicketType x) "ADULT") as [E|E].
    + symmetry. apply bool_decide_eq_true. by left.
    + rewrite IH. apply bool_decide_ext. rewrite Exists_cons.  tauto.
Qed.

Lemma some_child_or_infant l (noAdult : bool) :
  some (fun r =>
          (String.eqb (getTicketType r) "CHILD" || String.eqb (getTicketType r) "INFANT")
          && (noOfTickets r >? 0) && noAdult) l
  = bool_decide (Exists (λ r, isChildOrInfant r ∧ 0 < noOfTickets r) l) && noAdult.
Proof.
  unfold some. induction l as [|x l IH]; cbn [existsb].
  - rewrite bool_decide_eq_false_2; [done | intros H; by apply Exists_nil in H].
  - rewrite IH.
    destruct noAdult; rewrite ?andb_false_r; [|done]. rewrite !andb_true_r.
    apply eq_true_iff_eq. rewrite orb_true_iff, andb_true_iff, orb_true_iff.
    rewrite !bool_decide_eq_true, Exists_cons.
    rewrite !String.eqb_eq, Z.gtb_lt. tauto.
Qed.

(** _validatePurchase as three guarded tests on the list. *)
Lemma validatePurchase_guards l :
  _validatePurchase l =
    if bool_decide (maxTicketsLimit < Z.of_nat (length l))
    then Throw (Error maxTicketsMessage)
    else if strictEquals (_calculateTotalTickets l) (Num 0)
    then Throw (Error noTicketsMessage)
    else if bool_decide (Exists (λ r, isChildOrInfant r ∧ 0 < noOfTickets r) l
                         ∧ Forall (λ r, ¬ isAdult r) l)
    then Throw (Error adultRequiredMessage)
    else Return tt.
Proof.
  unfold _validatePurchase.
  replace (Z.of_nat (length l) >? maxTicketsLimit)
    with (bool_decide (maxTicketsLimit < Z.of_nat (length l))).
  2:{ apply eq_true_iff_eq. rewrite bool_decide_eq_true, Z.gtb_lt. tauto. }
  destruct (bool_decide (maxTicketsLimit < _)); [done|].
  destruct (strictEquals _ _); [done|].
  rewrite some_child_or_infant, find_adult_Some.
  match goal with |- (if ?a then _ else _) = (if ?b then _ else _) =>
    replace a with b; [done|] end.
  apply eq_true_iff_eq.
  rewrite andb_true_iff, negb_true_iff, bool_decide_eq_false, !bool_decide_eq_true.
  rewrite <- Forall_Exists_neg. tauto.
Qed.

Lemma messages_distinct :
  maxTicketsMessage ≠ noTicketsMessage
  ∧ maxTicketsMessage ≠ adultRequiredMessage
  ∧ noTicketsMessage ≠ adultRequiredMessage.
Proof. repeat split; by vm_compute. Qed.

(** What the first test of _validatePurchase does reject: more than
    [maxTicketsLimit] entries. *)
Lemma validatePurchase_too_many_entries l :
  maxTicketsLimit < Z.of_nat (length l) →
  _validatePurchase l = Throw (Error maxTicketsMessage).
Proof.
  intros H. rewrite validatePurchase_guards. by rewrite bool_decide_eq_true_2.
Qed.

Lemma max_tickets_thrown_inv (l : list TicketTypeRequest) :
  _validatePurchase l = Throw (Error maxTicketsMessage) →
  maxTicketsLimit < Z.of_nat (length l).
Proof.
  destruct messages_distinct as (Hmn & Hma & _).
  rewrite validatePurchase_guards.
  destruct (bool_decide_reflect (maxTicketsLimit < Z.of_nat (length l))) as [Hlen|Hlen];
    [done|].
  destruct (strictEquals _ _); [intros [= H]; by destruct Hmn|].
  destruct (bool_decide _); [intros [= H]; by destruct Hma|done].
Qed.

Lemma strictEquals_Num (a : number) (z : Z) : strictEquals a (Num z) = true ↔ a = Num z.
Proof.
  destruct a; cbn; try (split; [done | discriminate]).
  rewrite Z.eqb_eq. split; [by intros -> | by intros [= ->]].
Qed.

Lemma nearestDouble_not_NaN (z : Z) : nearestDouble z ≠ NaN.
Proof.
  unfold nearestDouble. destruct (2 ^ 1024 <=? _); [by destruct (z <? 0) | done].
Qed.

Lemma leb_Infinity (a : number) : a ≠ NaN → leb a Infinity = true.
Proof. by destruct a. Qed.

(** Adding a count of at least 1 lifts a safe lower bound by one. *)
Lemma add_lower (acc : number) (c d n : Z) :
  leb (Num c) acc = true → 1 ≤ n → 0 ≤ d ≤ c + 1 → d ≤ MAX_SAFE_INTEGER →
  leb (Num d) (add acc (Num n)) = true.
Proof.
  intros Hacc Hn Hd Hsafe. destruct acc as [a| | |]; try done.
  cbn [leb] in Hacc. apply Z.leb_le in Hacc. cbn [add].
  rewrite <- (nearestDouble_exact d) by lia.
  apply nearestDouble_mono. lia.
Qed.

Lemma calculateTotalTickets_lower (l : list TicketTypeRequest) (acc : number) (c : Z) :
  Forall (λ r, 0 < noOfTickets r) l →
  0 ≤ c → leb (Num (Z.min c 21)) acc = true →
  leb (Num (Z.min (c + Z.of_nat (length l)) 21))
      (fold_left (fun acc r => add acc (Num (noOfTickets r))) l acc) = true.
Proof.
  intros Hpos. revert acc c. induction Hpos as [|r l Hr _ IH]; intros acc c Hc Hacc.
  - cbn [length fold_left]. by rewrite Z.add_0_r.
  - cbn [fold_left]. rewrite length_cons.
    replace (c + Z.of_nat (S (length l))) with ((c + 1) + Z.of_nat (length l)) by lia.
    apply IH; [lia|].
    apply (add_lower acc (Z.min c 21)); [exact Hacc | lia | lia |].
    unfold MAX_SAFE_INTEGER. lia.
Qed.

(** Adding a smaller non-negative count to a smaller non-negative number
    gives a smaller non-negative number. *)
Lemma add_mono (s t : number) (y' y : Z) :
  leb (Num 0) s = true → leb s t = true → 0 ≤ y' ≤ y →
  leb (Num 0) (add s (Num y')) = true
  ∧ leb (add s (Num y')) (add t (Num y)) = true.
Proof.
  intros Hs Hst Hy. destruct s as [a| | |]; try done.
  - cbn [leb] in Hs. apply Z.leb_le in Hs. split.
    + cbn [add]. change (Num 0) with (nearestDouble 0). apply nearestDouble_mono. lia.
    + destruct t as [b| | |]; try done; cbn [add].
      * cbn [leb] in Hst. apply Z.leb_le in Hst. apply nearestDouble_mono. lia.
      * apply leb_Infinity, nearestDouble_not_NaN.
  - by destruct t.
Qed.

(** ** Validation *)

(** C1: a request list whose total ticket count exceeds 20 should fail with
    the max-tickets message however the tickets are spread over the entries.
    The code tests the number of entries instead of the total: one ADULT
    request for 21 tickets has total 21 > 20, and _validatePurchase returns
    normally on it. *)
Theorem validatePurchase_accepts_21_tickets_in_one_request :
  _calculateTotalTickets [mkRequest "ADULT" 21] = Num 21
  ∧ ltb (Num maxTicketsLimit) (_calculateTotalTickets [mkRequest "ADULT" 21]) = true
  ∧ _validatePurchase [mkRequest "ADULT" 21] = Return tt.
Proof. repeat split; by vm_compute. Qed.

(** C2: validation should report the error of the first violated rule in the
    order count limit, emptiness, adult accompaniment.  One CHILD request for
    21 tickets violates the count limit (total 21 > 20) and the adult rule;
    the first of the two is the count limit, yet _validatePurchase, whose
    first test counts the entries of the list, passes it and reports the
    adult-required error. *)
Theorem validatePurchase_reports_later_rule :
  violates [mkRequest "CHILD" 21] <$> rules = [true; false; true]
  ∧ firstViolated [mkRequest "CHILD" 21] = Some CountLimit
  ∧ _validatePurchase [mkRequest "CHILD" 21]
    = Throw (Error (ruleMessage AdultAccompaniment))
  ∧ ruleMessage AdultAccompaniment ≠ ruleMessage CountLimit.
Proof. repeat split; by vm_compute. Qed.

(** C3: a request list with total ticket count zero, which cannot violate the
    count limit on the total, should fail with the no-tickets message.  On 21
    CHILD requests of count 0 the total is 0, yet _validatePurchase, whose
    first test counts the entries, throws the max-tickets error.  The empty
    list does fail with the no-tickets message, its total is 0, and the total
    of counts 2, 3, 1 is 6 whatever the categories. *)
Theorem validatePurchase_max_tickets_on_total_zero :
  _calculateTotalTickets (replicate 21 (mkRequest "CHILD" 0)) = Num 0
  ∧ violates (replicate 21 (mkRequest "CHILD" 0)) <$> rules = [false; true; false]
  ∧ _validatePurchase (replicate 21 (mkRequest "CHILD" 0))
    = Throw (Error maxTicketsMessage)
  ∧ maxTicketsMessage ≠ noTicketsMessage
  ∧ _validatePurchase [] = Throw (Error noTicketsMessage)
  ∧ _calculateTotalTickets [] = Num 0
  ∧ (∀ c1 c2 c3 : string,
       _calculateTotalTickets [mkRequest c1 2; mkRequest c2 3; mkRequest c3 1] = Num 6).
Proof. repeat split; by vm_compute. Qed.

(** C4: on a request list that passes the count limit and the emptiness rule
    on the total, validation should fail with the adult-required message
    exactly when a CHILD or INFANT request has a count above 0 and no ADULT
    request is present, and succeed when one is.  An ADULT request for 1
    ticket followed by 20 INFANT requests of count 0 has total 1 and an ADULT
    request, and 20 CHILD requests of count 0 followed by a CHILD request for
    1 ticket has total 1 and violates the adult rule; on both,
    _validatePurchase, whose first test counts the 21 entries, throws the
    max-tickets error. *)
Theorem validatePurchase_max_tickets_on_total_one :
  (violates (mkRequest "ADULT" 1 :: replicate 20 (mkRequest "INFANT" 0)) <$> rules
   = [false; false; false]
   ∧ _validatePurchase (mkRequest "ADULT" 1 :: replicate 20 (mkRequest "INFANT" 0))
     = Throw (Error maxTicketsMessage))
  ∧ (violates (replicate 20 (mkRequest "CHILD" 0) ++ [mkRequest "CHILD" 1]) <$> rules
     = [false; false; true]
     ∧ _validatePurchase (replicate 20 (mkRequest "CHILD" 0) ++ [mkRequest "CHILD" 1])
       = Throw (Error maxTicketsMessage))
  ∧ maxTicketsMessage ≠ adultRequiredMessage.
Proof. repeat split; by vm_compute. Qed.

(** ** Prices *)

Lemma ticketTypes_lookup (c : string) (t : TicketType) :
  ticketTypes !! c = Some t ↔
    (c = "ADULT" ∧ t = mkTicketType "ADULT" 20)
    ∨ (c = "CHILD" ∧ t = mkTicketType "CHILD" 10)
    ∨ (c = "INFANT" ∧ t = mkTicketType "INFANT" 0).
Proof.
  unfold ticketTypes. rewrite !lookup_insert_Some, lookup_empty. split.
  - intros [[<- <-]|[_ [[<- <-]|[_ [[<- <-]|[_ ?]]]]]]; by auto.
  - intros [[-> ->]|[[-> ->]|[-> ->]]]; [by left | right; split; [done|by left] |].
    right; split; [done|]. right; split; [done|]. by left.
Qed.

Lemma getTicketPrice_in_table (c : string) (t : TicketType) :
  ticketTypes !! c = Some t → _getTicketPrice c = Return (VNumber (Num (price t))).
Proof. intros H. unfold _getTicketPrice, Get. by rewrite H. Qed.

Lemma getTicketPrice_missing (c : string) :
  ticketTypes !! c = None → c ∉ ObjectPrototype →
  _getTicketPrice c = Throw (InvalidPurchaseException ("Invalid ticket type: " +:+ c)).
Proof.
  intros H Hproto. unfold _getTicketPrice, Get. rewrite H.
  by rewrite bool_decide_eq_false_2.
Qed.

Lemma reduce_app {A B} (f : B -> A -> completion B) (l1 l2 : list A) (acc : B) :
  reduce f (l1 ++ l2) acc
  = match reduce f l1 acc with
    | Return acc' => reduce f l2 acc'
    | Throw e => Throw e
    end.
Proof.
  revert acc. induction l1 as [|x l1 IH]; intros acc; cbn [app reduce]; [done|].
  by destruct (f acc x).
Qed.

Lemma in_table_lookup (c : string) :
  c ∈ ["ADULT"; "CHILD"; "INFANT"] ↔ is_Some (ticketTypes !! c).
Proof.
  rewrite !elem_of_cons, elem_of_nil. split.
  - intros [->|[->|[->|[]]]]; by eexists.
  - intros [t Ht]. apply ticketTypes_lookup in Ht. tauto.
Qed.

Lemma priceOf_cases (c : string) :
  priceOf c = if decide (c = "ADULT") then 20 else if decide (c = "CHILD") then 10 else 0.
Proof.
  unfold priceOf. destruct (ticketTypes !! c) as [t|] eqn:Ht.
  - apply ticketTypes_lookup in Ht as [[-> ->]|[[-> ->]|[-> ->]]]; done.
  - repeat case_decide; subst; done.
Qed.

Lemma price_sum_by_category (l : list TicketTypeRequest) :
  sumZ ((λ r, noOfTickets r * priceOf (getTicketType r)) <$> l)
  = 20 * sumZ (noOfTickets <$> filter (λ r, getTicketType r = "ADULT") l)
    + 10 * sumZ (noOfTickets <$> filter (λ r, getTicketType r = "CHILD") l).
Proof.
  induction l as [|r l IH]; [done|].
  rewrite fmap_cons, sumZ_cons, IH, !filter_cons, priceOf_cases.
  repeat case_decide; rewrite ?fmap_cons, ?sumZ_cons; try lia; congruence.
Qed.

Lemma getTicketPrice_returns (c : string) :
  c ∈ ["ADULT"; "CHILD"; "INFANT"] ∨ c ∈ ObjectPrototype →
  ∃ v, _getTicketPrice c = Return v.
Proof.
  unfold _getTicketPrice, Get. intros [Hc|Hc].
  - apply in_table_lookup in Hc as [t ->]. by eexists.
  - destruct (ticketTypes !! c); [by eexists|].
    rewrite bool_decide_eq_true_2 by done. by eexists.
Qed.

Lemma priceOf_bounds (c : string) : 0 ≤ priceOf c ≤ 20.
Proof. rewrite priceOf_cases. repeat case_decide; lia. Qed.

(** On categories of the table and within the safe integers the total price
    is the exact sum of count times price. *)
Lemma calculateTotalPrice_in_table {AccountId} (accountId : AccountId) l :
  Forall (λ r, is_Some (ticketTypes !! getTicketType r)) l →
  safePrices l →
  _calculateTotalPrice accountId l
  = Return (Num (sumZ ((λ r, noOfTickets r * priceOf (getTicketType r)) <$> l))).
Proof.
  unfold _calculateTotalPrice, safePrices. intros Hall Hsafe.
  enough (Hacc : ∀ acc,
    Z.abs acc + 20 * sumZ ((λ r, Z.abs (noOfTickets r)) <$> l) ≤ MAX_SAFE_INTEGER →
    reduce (λ acc r,
              match _getTicketPrice (getTicketType r) with
              | Return price => Return (add acc (mul (Num (noOfTickets r)) (ToNumber price)))
              | Throw e => Throw e
              end) l (Num acc)
    = Return (Num (acc + sumZ ((λ r, noOfTickets r * priceOf (getTicketType r)) <$> l)))).
  { rewrite Hacc by (cbn [Z.abs]; lia). by rewrite Z.add_0_l. }
  clear Hsafe. induction Hall as [|r l [t Ht] _ IH]; intros acc Hsafe; cbn [reduce].
  - cbn. by rewrite Z.add_0_r.
  - rewrite (getTicketPrice_in_table _ _ Ht). cbn [ToNumber mul add].
    rewrite !fmap_cons, !sumZ_cons in *.
    pose proof (sumZ_abs_nonneg noOfTickets l).
    pose proof (priceOf_bounds (getTicketType r)) as Hp.
    unfold priceOf in Hp at 1 2. rewrite Ht in Hp. cbn [from_option] in Hp.
    assert (Z.abs (noOfTickets r * price t) ≤ 20 * Z.abs (noOfTickets r))
      by (rewrite Z.abs_mul; nia).
    rewrite (nearestDouble_exact (noOfTickets r * price t)) by lia.
    rewrite nearestDouble_exact by lia.
    rewrite IH by lia. unfold priceOf at 2. rewrite Ht. cbn [from_option].
    do 2 f_equal. lia.
Qed.

Lemma calculateTotalPrice_categories {AccountId : Type} (accountId : AccountId)
    (l : list TicketTypeRequest) :
  Forall (λ r, getTicketType r ∈ ["ADULT"; "CHILD"; "INFANT"]) l →
  safePrices l →
  _calculateTotalPrice accountId l
  = Return (Num (20 * sumZ (noOfTickets <$> filter (λ r, getTicketType r = "ADULT") l)
                 + 10 * sumZ (noOfTickets <$> filter (λ r, getTicketType r = "CHILD") l))).
Proof.
  intros Hall Hsafe. rewrite calculateTotalPrice_in_table, price_sum_by_category; [done| |done].
  eapply Forall_impl; [exact Hall|]. intros r Hr. by apply in_table_lookup.
Qed.

(** C5: the total price is the sum of count × price over requests whose
    categories are in the table, and a category outside the table should make
    the price lookup fail with "Invalid ticket type: <category>".  The lookup
    [ticketTypes[ticketType]] also finds what the object literal inherits:
    "toString" is not a key of the table, yet _getTicketPrice returns
    [undefined] for it instead of throwing, and the total price of a request
    of that category is [NaN]. *)
Theorem getTicketPrice_inherited_key_does_not_throw :
  ticketTypes !! "toString" = None
  ∧ _getTicketPrice "toString" = Return VUndefined
  ∧ _calculateTotalPrice "112233" [mkRequest "toString" 1] = Return NaN
  ∧ _getTicketPrice "INVALID_TYPE"
    = Throw (InvalidPurchaseException "Invalid ticket type: INVALID_TYPE")
  ∧ _getTicketPrice "ADULT" = Return (VNumber (Num 20))
  ∧ _calculateTotalPrice "112233" [] = Return (Num 0)
  ∧ _calculateTotalPrice "112233" [mkRequest "ADULT" 2; mkRequest "CHILD" 3]
    = Return (Num 70).
Proof. repeat split; by vm_compute. Qed.

(** C10: _calculateTotalPrice never reads its accountId argument: any two
    account identifiers give the same total for the same request list, and so
    the amounts that purchase sends to the payment collaborator are the same
    for both. *)
Theorem calculateTotalPrice_independent_of_accountId :
  (∀ (AccountId : Type) (a1 a2 : AccountId) (l : list TicketTypeRequest),
     _calculateTotalPrice a1 l = _calculateTotalPrice a2 l)
  ∧ (∀ (AccountId World : Type)
       (ticketPaymentService_pay : AccountId -> number -> World -> World * settled)
       (seatReservationService_reserveSeats : number -> World -> World * settled)
       (a1 a2 : AccountId) (l : list TicketTypeRequest) (s : state AccountId World),
     paidAmounts (calls (purchase ticketPaymentService_pay
                           seatReservationService_reserveSeats a1 l s).2)
     = paidAmounts (calls (purchase ticketPaymentService_pay
                             seatReservationService_reserveSeats a2 l s).2)).
Proof.
  split; [reflexivity|].
  intros AccountId World payS reserveS a1 a2 l s. unfold purchase.
  destruct (_validatePurchase l); [|done].
  change (_calculateTotalPrice a2 l) with (_calculateTotalPrice a1 l).
  destruct (_calculateTotalPrice a1 l) as [p|]; [|done].
  unfold bind, catch_, then_, bind, pay, _reserveSeats, reserveSeats, ret.
  destruct (payS a1 p (world s)) as [w1 [|e1]], (payS a2 p (world s)) as [w2 [|e2]];
    cbn [world calls];
    repeat match goal with
      | |- context [reserveS ?n ?w] => destruct (reserveS n w) as [? [|?]]
      end;
    cbn [snd calls]; unfold paidAmounts; rewrite ?omap_app; cbn;
    rewrite ?app_nil_r; reflexivity.
Qed.


(** ** Seats *)

Lemma fold_left_add_isDouble {A} (f : A -> number) (l : list A) (acc : number) :
  isDouble acc → isDouble (fold_left (fun a x => add a (f x)) l acc).
Proof.
  revert acc. induction l as [|x l IH]; intros acc Hacc; [done|].
  cbn [fold_left]. apply IH, add_isDouble.
Qed.

(** C6, as stated, fails above the safe integers: for an ADULT request of
    2^53 tickets followed by an ADULT request of 1 ticket the seat count
    passed on is 2^53, the double nearest to the sum 2^53 + 1. *)
Lemma seatsToReserve_rounds_above_safe_integers :
  seatsToReserve [mkRequest "ADULT" 9007199254740992; mkRequest "ADULT" 1]
  = Num 9007199254740992
  ∧ sumZ (noOfTickets <$> [mkRequest "ADULT" 9007199254740992; mkRequest "ADULT" 1])
    = 9007199254740993
  ∧ seatsToReserve [mkRequest "ADULT" 9007199254740992; mkRequest "ADULT" 1]
    ≠ Num (sumZ (noOfTickets <$>
                   [mkRequest "ADULT" 9007199254740992; mkRequest "ADULT" 1])).
Proof. repeat split; by vm_compute. Qed.

(** C6, amended: on a request list whose counts, added up in absolute value,
    stay within the safe integers, the seat count that _reserveSeats passes
    to the seat-reservation collaborator, in the single call it makes, is the
    sum of the counts of the ADULT and CHILD requests; on every request list
    an INFANT request adds nothing to it.  ADULT 2 and CHILD 3 give 5 seats,
    INFANT 1 and ADULT 2 give 2. *)
Theorem reserveSeats_counts_adult_and_child_only :
  (∀ (AccountId World : Type)
     (seatReservationService_reserveSeats : number -> World -> World * settled)
     (l : list TicketTypeRequest) (s : state AccountId World),
     safeCounts l →
     calls (_reserveSeats seatReservationService_reserveSeats l s).2
     = calls s ++
       [ReserveSeats
          (Num (sumZ (noOfTickets <$>
                        filter (λ r, getTicketType r = "ADULT" ∨ getTicketType r = "CHILD")
                          l)))])
  ∧ (∀ (l1 l2 : list TicketTypeRequest) (n : Z),
       seatsToReserve (l1 ++ mkRequest "INFANT" n :: l2) = seatsToReserve (l1 ++ l2))
  ∧ seatsToReserve [mkRequest "ADULT" 2; mkRequest "CHILD" 3] = Num 5
  ∧ seatsToReserve [mkRequest "INFANT" 1; mkRequest "ADULT" 2] = Num 2.
Proof.
  split; [|split; [|split; by vm_compute]].
  - intros AccountId World reserveS l s Hsafe. unfold _reserveSeats, reserveSeats.
    destruct (reserveS _ _) as [w r]. cbn [snd calls].
    by rewrite seatsToReserve_exact.
  - intros l1 l2 n. unfold seatsToReserve. rewrite !fold_left_app. cbn [fold_left].
    f_equal. cbn [getTicketType]. change (String.eqb "INFANT" "ADULT") with false.
    change (String.eqb "INFANT" "CHILD") with false. cbn [orb].
    apply add_0_r.
    apply (fold_left_add_isDouble
             (λ r, if String.eqb (getTicketType r) "ADULT"
                      || String.eqb (getTicketType r) "CHILD"
                   then Num (noOfTickets r) else Num 0)).
    by vm_compute.
Qed.

Lemma reserveSeats_counts_adult_and_child_only_witness :
  safeCounts [mkRequest "ADULT" 2; mkRequest "INFANT" 1; mkRequest "CHILD" 3]
  ∧ calls (_reserveSeats (World := nat) stub_resolves
             [mkRequest "ADULT" 2; mkRequest "INFANT" 1; mkRequest "CHILD" 3]
             (mkState (AccountId := string) 0%nat [])).2
    = [] ++ [ReserveSeats (Num (sumZ [2; 3]))].
Proof.
  split; [by vm_compute|].
  apply (proj1 reserveSeats_counts_adult_and_child_only string nat stub_resolves
           [mkRequest "ADULT" 2; mkRequest "INFANT" 1; mkRequest "CHILD" 3]
           (mkState 0%nat [])).
  by vm_compute.
Defined.

(** ** purchase *)

Lemma calculateTotalPrice_throws {AccountId} (accountId : AccountId) l e :
  _calculateTotalPrice accountId l = Throw e →
  ∃ c, c ∈ getTicketType <$> l
       ∧ e = InvalidPurchaseException ("Invalid ticket type: " +:+ c).
Proof.
  unfold _calculateTotalPrice. generalize (Num 0).
  induction l as [|r l IH]; intros acc; cbn [reduce]; [done|].
  destruct (_getTicketPrice (getTicketType r)) as [v|e'] eqn:Hprice.
  - intros H. destruct (IH _ H) as (c & Hc & ->). exists c. split; [|done].
    rewrite fmap_cons. by apply list_elem_of_further.
  - intros [= <-]. exists (getTicketType r). split.
    + rewrite fmap_cons. apply list_elem_of_here.
    + unfold _getTicketPrice in Hprice.
      destruct (negb (truthy _)); by inversion Hprice.
Qed.

Lemma validatePurchase_throws l e :
  _validatePurchase l = Throw e → ∃ r, e = Error (ruleMessage r).
Proof.
  rewrite validatePurchase_guards.
  destruct (bool_decide (maxTicketsLimit < _)); [intros [= <-]; by exists CountLimit|].
  destruct (strictEquals _ _); [intros [= <-]; by exists NotEmpty|].
  destruct (bool_decide _); [intros [= <-]; by exists AdultAccompaniment|].
  done.
Qed.

Section Purchase.

Context {AccountId World : Type}.
Variable ticketPaymentService_pay : AccountId -> number -> World -> World * settled.
Variable seatReservationService_reserveSeats : number -> World -> World * settled.

Lemma purchase_validation_throws a l s e :
  _validatePurchase l = Throw e →
  purchase ticketPaymentService_pay seatReservationService_reserveSeats a l s
  = (Thrown e, s).
Proof. intros H. unfold purchase. by rewrite H. Qed.

Lemma purchase_price_throws a l s e :
  _validatePurchase l = Return tt → _calculateTotalPrice a l = Throw e →
  purchase ticketPaymentService_pay seatReservationService_reserveSeats a l s
  = (Thrown e, s).
Proof. intros Hv Hp. unfold purchase. by rewrite Hv, Hp. Qed.

Lemma purchase_payment_rejects a l s totalPrice w error :
  _validatePurchase l = Return tt → _calculateTotalPrice a l = Return totalPrice →
  ticketPaymentService_pay a totalPrice (world s) = (w, Rejected error) →
  purchase ticketPaymentService_pay seatReservationService_reserveSeats a l s
  = (Promise (Rejected (InvalidPurchaseException (message error))),
     mkState w (calls s ++ [Pay a totalPrice])).
Proof.
  intros Hv Hp Hpay. unfold purchase. rewrite Hv, Hp.
  unfold bind, catch_, then_, bind, pay. by rewrite Hpay.
Qed.

Lemma purchase_reservation_settles a l s totalPrice w w' r :
  _validatePurchase l = Return tt → _calculateTotalPrice a l = Return totalPrice →
  ticketPaymentService_pay a totalPrice (world s) = (w, Fulfilled) →
  seatReservationService_reserveSeats (seatsToReserve l) w = (w', r) →
  purchase ticketPaymentService_pay seatReservationService_reserveSeats a l s
  = (Promise (match r with
              | Fulfilled => Fulfilled
              | Rejected error => Rejected (InvalidPurchaseException (message error))
              end),
     mkState w' (calls s ++ [Pay a totalPrice; ReserveSeats (seatsToReserve l)])).
Proof.
  intros Hv Hp Hpay Hres. unfold purchase. rewrite Hv, Hp.
  unfold bind, catch_, then_, bind, pay, _reserveSeats, reserveSeats.
  rewrite Hpay. cbn [world calls]. rewrite Hres, <- app_assoc.
  by destruct r.
Qed.

End Purchase.

(** C7: the collaborators are called in sequence, each gated by what came
    before.  When validation (or the price computation that follows it)
    throws, purchase throws the same exception and leaves the world and the
    call log untouched: neither collaborator is called.  When the payment
    collaborator rejects, the call log grows by the payment call alone, the
    world is the one payment left, and purchase returns a rejected promise:
    the reservation collaborator is not called. *)
Theorem purchase_collaborators_gated :
  ∀ (AccountId World : Type)
    (ticketPaymentService_pay : AccountId -> number -> World -> World * settled)
    (seatReservationService_reserveSeats : number -> World -> World * settled)
    (accountId : AccountId) (l : list TicketTypeRequest) (s : state AccountId World),
    (∀ e, _validatePurchase l = Throw e →
          purchase ticketPaymentService_pay seatReservationService_reserveSeats
            accountId l s = (Thrown e, s))
    ∧ (∀ e, _validatePurchase l = Return tt →
            _calculateTotalPrice accountId l = Throw e →
            purchase ticketPaymentService_pay seatReservationService_reserveSeats
              accountId l s = (Thrown e, s))
    ∧ (∀ totalPrice w error,
         _validatePurchase l = Return tt →
         _calculateTotalPrice accountId l = Return totalPrice →
         ticketPaymentService_pay accountId totalPrice (world s) = (w, Rejected error) →
         ∃ e, purchase ticketPaymentService_pay seatReservationService_reserveSeats
                accountId l s
              = (Promise (Rejected e), mkState w (calls s ++ [Pay accountId totalPrice]))).
Proof.
  intros AccountId World payS reserveS a l s. split; [|split].
  - intros e. apply purchase_validation_throws.
  - intros e. apply purchase_price_throws.
  - intros totalPrice w error Hv Hp Hpay. eexists.
    by apply purchase_payment_rejects.
Qed.

Lemma purchase_collaborators_gated_witness :
  purchase (λ _ : string, stub_resolves) stub_resolves "112233"
    [mkRequest "CHILD" 1] (mkState 0%nat [])
  = (Thrown (Error adultRequiredMessage), mkState 0%nat [])
  ∧ ∃ e, purchase (λ _ : string, stub_rejects (Error "Payment failed")) stub_resolves
           "112233" [mkRequest "ADULT" 2] (mkState 0%nat [])
         = (Promise (Rejected e), mkState 1%nat ([] ++ [Pay "112233" (Num 40)])).
Proof.
  split.
  - apply (proj1 (purchase_collaborators_gated string nat
                    (λ _, stub_resolves) stub_resolves "112233"
                    [mkRequest "CHILD" 1] (mkState 0%nat []))).
    reflexivity.
  - apply (proj2 (proj2 (purchase_collaborators_gated string nat
                    (λ _, stub_rejects (Error "Payment failed")) stub_resolves "112233"
                    [mkRequest "ADULT" 2] (mkState 0%nat [])))
             (Num 40) 1%nat (Error "Payment failed")); reflexivity.
Defined.

(** C8, as stated, fails on the empty request list: purchase does not return
    a rejected promise but throws, synchronously, the generic Error of
    _validatePurchase. *)
Lemma purchase_validation_failure_is_thrown :
  (purchase (λ _ : string, stub_resolves) stub_resolves "112233" [] (mkState 0%nat [])).1
  = Thrown (Error "No tickets selected")
  ∧ ¬ rejectedWithPurchaseException
        (purchase (λ _ : string, stub_resolves) stub_resolves "112233" []
           (mkState 0%nat [])).1.
Proof.
  split; [reflexivity|]. intros [m Hm]. vm_compute in Hm. discriminate Hm.
Qed.

(** C8, amended: a failure of the payment or of the reservation collaborator
    reaches the caller as a rejected promise that carries an
    InvalidPurchaseException with the message of the collaborator's error; a
    validation failure is thrown by purchase itself, as the generic Error
    with the message of the violated rule, and an invalid ticket type as the
    InvalidPurchaseException of the price lookup, thrown likewise. *)
Theorem purchase_failure_shapes :
  ∀ (AccountId World : Type)
    (ticketPaymentService_pay : AccountId -> number -> World -> World * settled)
    (seatReservationService_reserveSeats : number -> World -> World * settled)
    (accountId : AccountId) (l : list TicketTypeRequest) (s : state AccountId World),
    let o := (purchase ticketPaymentService_pay seatReservationService_reserveSeats
                accountId l s).1 in
    (∀ e, _validatePurchase l = Throw e →
          o = Thrown e ∧ ∃ r, e = Error (ruleMessage r))
    ∧ (∀ e, _validatePurchase l = Return tt →
            _calculateTotalPrice accountId l = Throw e →
            o = Thrown e
            ∧ ∃ c, c ∈ getTicketType <$> l
                   ∧ e = InvalidPurchaseException ("Invalid ticket type: " +:+ c))
    ∧ (∀ totalPrice w error,
         _validatePurchase l = Return tt →
         _calculateTotalPrice accountId l = Return totalPrice →
         ticketPaymentService_pay accountId totalPrice (world s) = (w, Rejected error) →
         o = Promise (Rejected (InvalidPurchaseException (message error)))
         ∧ rejectedWithPurchaseException o)
    ∧ (∀ totalPrice w w' error,
         _validatePurchase l = Return tt →
         _calculateTotalPrice accountId l = Return totalPrice →
         ticketPaymentService_pay accountId totalPrice (world s) = (w, Fulfilled) →
         seatReservationService_reserveSeats (seatsToReserve l) w = (w', Rejected error) →
         o = Promise (Rejected (InvalidPurchaseException (message error)))
         ∧ rejectedWithPurchaseException o).
Proof.
  intros AccountId World payS reserveS a l s o. subst o.
  split; [|split; [|split]].
  - intros e Hv. rewrite (purchase_validation_throws _ _ _ _ _ _ Hv).
    split; [done | by eapply validatePurchase_throws].
  - intros e Hv Hp. rewrite (purchase_price_throws _ _ _ _ _ _ Hv Hp).
    split; [done | by eapply calculateTotalPrice_throws].
  - intros totalPrice w error Hv Hp Hpay.
    rewrite (purchase_payment_rejects _ _ _ _ _ _ _ _ Hv Hp Hpay).
    split; [done | by eexists].
  - intros totalPrice w w' error Hv Hp Hpay Hres.
    rewrite (purchase_reservation_settles _ _ _ _ _ _ _ _ _ Hv Hp Hpay Hres).
    split; [done | by eexists].
Qed.

Lemma purchase_failure_shapes_witness :
  ((purchase (λ _ : string, stub_resolves) stub_resolves "112233" []
      (mkState 0%nat [])).1 = Thrown (Error noTicketsMessage)
   ∧ ∃ r, Error noTicketsMessage = Error (ruleMessage r))
  ∧ ((purchase (λ _ : string, stub_rejects (Error "Payment failed")) stub_resolves
        "112233" [mkRequest "ADULT" 2] (mkState 0%nat [])).1
     = Promise (Rejected (InvalidPurchaseException "Payment failed"))
     ∧ rejectedWithPurchaseException
         (purchase (λ _ : string, stub_rejects (Error "Payment failed")) stub_resolves
            "112233" [mkRequest "ADULT" 2] (mkState 0%nat [])).1)
  ∧ ((purchase (λ _ : string, stub_resolves) (stub_rejects (Error "No seats left"))
        "112233" [mkRequest "ADULT" 2] (mkState 0%nat [])).1
     = Promise (Rejected (InvalidPurchaseException "No seats left"))
     ∧ rejectedWithPurchaseException
         (purchase (λ _ : string, stub_resolves) (stub_rejects (Error "No seats left"))
            "112233" [mkRequest "ADULT" 2] (mkState 0%nat [])).1).
Proof.
  split; [|split].
  - apply (proj1 (purchase_failure_shapes string nat (λ _, stub_resolves) stub_resolves
                    "112233" [] (mkState 0%nat []))).
    reflexivity.
  - apply (proj1 (proj2 (proj2 (purchase_failure_shapes string nat
                    (λ _, stub_rejects (Error "Payment failed")) stub_resolves
                    "112233" [mkRequest "ADULT" 2] (mkState 0%nat []))))
             (Num 40) 1%nat (Error "Payment failed")); reflexivity.
  - apply (proj2 (proj2 (proj2 (purchase_failure_shapes string nat
                    (λ _, stub_resolves) (stub_rejects (Error "No seats left"))
                    "112233" [mkRequest "ADULT" 2] (mkState 0%nat []))))
             (Num 40) 1%nat 2%nat (Error "No seats left")); reflexivity.
Defined.

(** C9: for the single request ADULT × 2, when the payment collaborator
    resolves on the amount 40 and the reservation collaborator resolves on 2
    seats, purchase calls payment once with 40, then reservation once with 2,
    and returns a promise that is fulfilled. *)
Theorem purchase_two_adult_tickets :
  ∀ (AccountId World : Type)
    (ticketPaymentService_pay : AccountId -> number -> World -> World * settled)
    (seatReservationService_reserveSeats : number -> World -> World * settled)
    (accountId : AccountId) (s : state AccountId World) (w w' : World),
    ticketPaymentService_pay accountId (Num 40) (world s) = (w, Fulfilled) →
    seatReservationService_reserveSeats (Num 2) w = (w', Fulfilled) →
    purchase ticketPaymentService_pay seatReservationService_reserveSeats
      accountId [mkRequest "ADULT" 2] s
    = (Promise Fulfilled,
       mkState w' (calls s ++ [Pay accountId (Num 40); ReserveSeats (Num 2)])).
Proof.
  intros AccountId World payS reserveS a s w w' Hpay Hres.
  by rewrite (purchase_reservation_settles payS reserveS a [mkRequest "ADULT" 2] s
                (Num 40) w w' Fulfilled).
Qed.

Lemma purchase_two_adult_tickets_witness :
  purchase (λ _ : string, stub_resolves) stub_resolves "112233"
    [mkRequest "ADULT" 2] (mkState 0%nat [])
  = (Promise Fulfilled,
     mkState 2%nat ([] ++ [Pay "112233" (Num 40); ReserveSeats (Num 2)])).
Proof.
  apply (purchase_two_adult_tickets string nat (λ _, stub_resolves) stub_resolves
           "112233" (mkState 0%nat []) 1%nat 2%nat); reflexivity.
Defined.


(** ** Further properties of validation and of the totals *)

Lemma sumZ_abs_le {A} (f : A -> Z) (l : list A) :
  Z.abs (sumZ (f <$> l)) ≤ sumZ ((λ x, Z.abs (f x)) <$> l).
Proof. induction l as [|x l IH]; [done|]. rewrite !fmap_cons, !sumZ_cons. lia. Qed.

Lemma safeCounts_app l1 l2 : safeCounts (l1 ++ l2) → safeCounts l1 ∧ safeCounts l2.
Proof.
  unfold safeCounts. rewrite fmap_app, sumZ_app.
  pose proof (sumZ_abs_nonneg noOfTickets l1). pose proof (sumZ_abs_nonneg noOfTickets l2).
  lia.
Qed.

Lemma safeCounts_Permutation l l' : l ≡ₚ l' → safeCounts l → safeCounts l'.
Proof.
  unfold safeCounts. intros Hp.
  by rewrite (sumZ_Permutation _ _ (fmap_Permutation (λ r, Z.abs (noOfTickets r)) _ _ Hp)).
Qed.

Lemma safePrices_safeCounts l : safePrices l → safeCounts l.
Proof.
  unfold safePrices, safeCounts. pose proof (sumZ_abs_nonneg noOfTickets l). lia.
Qed.

(** X1: _validatePurchase returns normally exactly on the lists with at most
    20 entries, a total ticket count other than 0, and either an ADULT
    request or no CHILD or INFANT request with a count above 0. *)
Theorem validatePurchase_returns_iff (l : list TicketTypeRequest) :
  _validatePurchase l = Return tt
  ↔ Z.of_nat (length l) ≤ maxTicketsLimit
    ∧ _calculateTotalTickets l ≠ Num 0
    ∧ ((∃ r, r ∈ l ∧ getTicketType r = "ADULT")
       ∨ ¬ ∃ r, r ∈ l ∧ (getTicketType r = "CHILD" ∨ getTicketType r = "INFANT")
                  ∧ 0 < noOfTickets r).
Proof.
  rewrite validatePurchase_guards.
  destruct (bool_decide_reflect (maxTicketsLimit < Z.of_nat (length l))) as [Hlen|Hlen].
  { split; [done | intros [? _]; lia]. }
  destruct (strictEquals (_calculateTotalTickets l) (Num 0)) eqn:Hsum.
  { apply strictEquals_Num in Hsum. split; [done | by intros (_ & ? & _)]. }
  assert (Hne : _calculateTotalTickets l ≠ Num 0).
  { intros Heq. apply strictEquals_Num in Heq. congruence. }
  match goal with |- context [bool_decide ?P] =>
    destruct (bool_decide_reflect P) as [Hrule|Hrule] end.
  - split; [done|]. intros (_ & _ & Hor). exfalso.
    destruct Hrule as [Hex Hall]. rewrite Exists_exists in Hex.
    rewrite Forall_forall in Hall. destruct Hor as [(r & Hr & Ha)|Hno].
    + by apply (Hall r).
    + by apply Hno.
  - split; [intros _|done]. split; [lia|]. split; [done|].
    destruct (decide (Exists (λ r, getTicketType r = "ADULT") l)) as [Ha|Ha].
    + left. by apply Exists_exists.
    + right. intros Hex. apply Hrule. split; [by apply Exists_exists|].
      by apply Forall_Exists_neg.
Qed.

(** X2: _validatePurchase throws the max-tickets error exactly when the list
    has more than 20 entries, whatever the counts and categories. *)
Theorem validatePurchase_max_tickets_iff (l : list TicketTypeRequest) :
  _validatePurchase l = Throw (Error maxTicketsMessage)
  ↔ maxTicketsLimit < Z.of_nat (length l).
Proof.
  split; [apply max_tickets_thrown_inv | apply validatePurchase_too_many_entries].
Qed.

(** X3: when every request has a positive count, the max-tickets error is
    only thrown on lists whose total ticket count exceeds 20. *)
Theorem max_tickets_error_sound (l : list TicketTypeRequest) :
  Forall (λ r, 0 < noOfTickets r) l →
  _validatePurchase l = Throw (Error maxTicketsMessage) →
  ltb (Num maxTicketsLimit) (_calculateTotalTickets l) = true.
Proof.
  intros Hpos Hthrow. apply max_tickets_thrown_inv in Hthrow.
  pose proof (calculateTotalTickets_lower l (Num 0) 0 Hpos ltac:(lia) eq_refl) as Hlow.
  fold (_calculateTotalTickets l) in Hlow.
  unfold maxTicketsLimit in *. rewrite Z.min_r in Hlow by lia.
  destruct (_calculateTotalTickets l); try done.
  cbn [leb ltb] in *. apply Z.leb_le in Hlow. apply Z.ltb_lt. lia.
Qed.

Lemma max_tickets_error_sound_witness :
  ltb (Num maxTicketsLimit)
      (_calculateTotalTickets (replicate 21 (mkRequest "ADULT" 1))) = true.
Proof.
  apply (max_tickets_error_sound (replicate 21 (mkRequest "ADULT" 1))).
  - apply Forall_replicate. reflexivity.
  - by vm_compute.
Defined.

(** X4: on request lists whose counts stay within the safe integers, the
    result of _validatePurchase does not depend on the order of the
    requests. *)
Theorem validatePurchase_Permutation (l l' : list TicketTypeRequest) :
  safeCounts l → l ≡ₚ l' → _validatePurchase l = _validatePurchase l'.
Proof.
  intros Hsafe Hp. rewrite !validatePurchase_guards.
  rewrite (calculateTotalTickets_exact l Hsafe).
  rewrite (calculateTotalTickets_exact l' (safeCounts_Permutation l l' Hp Hsafe)).
  rewrite (Permutation_length Hp).
  rewrite (sumZ_Permutation _ _ (fmap_Permutation noOfTickets _ _ Hp)).
  destruct (bool_decide (maxTicketsLimit < _)); [done|].
  destruct (strictEquals _ _); [done|].
  match goal with |- (if ?a then _ else _) = (if ?b then _ else _) =>
    replace a with b; [done|] end.
  apply bool_decide_ext. rewrite !Exists_exists, !Forall_forall.
  split; intros [(x & Hx & Hc) Hno]; (split; [exists x; split; [|done]|]);
    first [by rewrite <- Hp | by rewrite Hp
          | intros y Hy; apply Hno; by rewrite Hp
          | intros y Hy; apply Hno; by rewrite <- Hp].
Qed.

Lemma validatePurchase_Permutation_witness :
  _validatePurchase [mkRequest "CHILD" 1; mkRequest "ADULT" 1]
  = _validatePurchase [mkRequest "ADULT" 1; mkRequest "CHILD" 1].
Proof.
  apply (validatePurchase_Permutation
           [mkRequest "CHILD" 1; mkRequest "ADULT" 1]
           [mkRequest "ADULT" 1; mkRequest "CHILD" 1]).
  - by vm_compute.
  - apply perm_swap.
Defined.

(** X5: when the counts of two request lists together stay within the safe
    integers, the ticket total and the seat count of the lists put together
    are the sums of the two totals and of the two seat counts. *)
Theorem totals_app (l1 l2 : list TicketTypeRequest) :
  safeCounts (l1 ++ l2) →
  _calculateTotalTickets (l1 ++ l2)
  = add (_calculateTotalTickets l1) (_calculateTotalTickets l2)
  ∧ seatsToReserve (l1 ++ l2) = add (seatsToReserve l1) (seatsToReserve l2).
Proof.
  intros Hsafe. destruct (safeCounts_app l1 l2 Hsafe) as [H1 H2].
  rewrite !calculateTotalTickets_exact, !seatsToReserve_exact by done.
  unfold safeCounts in *. rewrite fmap_app, sumZ_app in Hsafe.
  cbn [add]. rewrite filter_app, !fmap_app, !sumZ_app.
  pose proof (sumZ_abs_le noOfTickets l1). pose proof (sumZ_abs_le noOfTickets l2).
  split; (rewrite nearestDouble_exact; [done|]).
  - lia.
  - set (P := λ r, getTicketType r = "ADULT" ∨ getTicketType r = "CHILD").
    assert (Hf : ∀ l, Z.abs (sumZ (noOfTickets <$> filter P l))
                      ≤ sumZ ((λ r, Z.abs (noOfTickets r)) <$> l)).
    { clear. intros l. induction l as [|r l IH]; [done|].
      rewrite filter_cons, fmap_cons, sumZ_cons.
      case_decide; rewrite ?fmap_cons, ?sumZ_cons; lia. }
    pose proof (Hf l1). pose proof (Hf l2). lia.
Qed.

Lemma totals_app_witness :
  _calculateTotalTickets ([mkRequest "ADULT" 2] ++ [mkRequest "INFANT" 1])
  = add (_calculateTotalTickets [mkRequest "ADULT" 2])
        (_calculateTotalTickets [mkRequest "INFANT" 1])
  ∧ seatsToReserve ([mkRequest "ADULT" 2] ++ [mkRequest "INFANT" 1])
    = add (seatsToReserve [mkRequest "ADULT" 2]) (seatsToReserve [mkRequest "INFANT" 1]).
Proof.
  apply (totals_app [mkRequest "ADULT" 2] [mkRequest "INFANT" 1]). by vm_compute.
Defined.

Lemma seats_le_tickets_fold (l : list TicketTypeRequest) (s t : number) :
  Forall (λ r, 0 ≤ noOfTickets r) l →
  leb (Num 0) s = true → leb s t = true →
  leb (Num 0)
      (fold_left
         (fun acc r =>
            add acc (Num (if decide (getTicketType r = "ADULT" ∨ getTicketType r = "CHILD")
                          then noOfTickets r else 0))) l s) = true
  ∧ leb (fold_left
           (fun acc r =>
              add acc (Num (if decide (getTicketType r = "ADULT" ∨ getTicketType r = "CHILD")
                            then noOfTickets r else 0))) l s)
        (fold_left (fun acc r => add acc (Num (noOfTickets r))) l t) = true.
Proof.
  intros Hpos. revert s t. induction Hpos as [|r l Hr _ IH]; intros s t Hs Hst; [done|].
  cbn [fold_left].
  assert (Hg : 0 ≤ (if decide (getTicketType r = "ADULT" ∨ getTicketType r = "CHILD")
                    then noOfTickets r else 0) ≤ noOfTickets r)
    by (case_decide; lia).
  destruct (add_mono s t _ _ Hs Hst Hg) as [H1 H2]. by apply IH.
Qed.

(** X6: when no request has a negative count, the seat count is between 0
    and the total ticket count: no more seats are reserved than tickets are
    bought. *)
Theorem seats_le_tickets (l : list TicketTypeRequest) :
  Forall (λ r, 0 ≤ noOfTickets r) l →
  leb (Num 0) (seatsToReserve l) = true
  ∧ leb (seatsToReserve l) (_calculateTotalTickets l) = true.
Proof.
  intros Hpos. rewrite seatsToReserve_fold. unfold _calculateTotalTickets.
  by apply seats_le_tickets_fold.
Qed.

Lemma seats_le_tickets_witness :
  leb (Num 0) (seatsToReserve [mkRequest "INFANT" 1; mkRequest "ADULT" 2]) = true
  ∧ leb (seatsToReserve [mkRequest "INFANT" 1; mkRequest "ADULT" 2])
        (_calculateTotalTickets [mkRequest "INFANT" 1; mkRequest "ADULT" 2]) = true.
Proof.
  apply (seats_le_tickets [mkRequest "INFANT" 1; mkRequest "ADULT" 2]).
  repeat constructor; by vm_compute.
Defined.

(** ** Further properties of the prices *)

Lemma seats_sum_by_category (l : list TicketTypeRequest) :
  sumZ (noOfTickets <$>
          filter (λ r, getTicketType r = "ADULT" ∨ getTicketType r = "CHILD") l)
  = sumZ (noOfTickets <$> filter (λ r, getTicketType r = "ADULT") l)
    + sumZ (noOfTickets <$> filter (λ r, getTicketType r = "CHILD") l).
Proof.
  induction l as [|r l IH]; [done|].
  rewrite !filter_cons.
  repeat case_decide; rewrite ?fmap_cons, ?sumZ_cons; try lia; try tauto; congruence.
Qed.

Lemma sumZ_filter_nonneg (P : TicketTypeRequest → Prop) `{∀ r, Decision (P r)}
    (l : list TicketTypeRequest) :
  Forall (λ r, 0 ≤ noOfTickets r) l → 0 ≤ sumZ (noOfTickets <$> filter P l).
Proof.
  induction 1 as [|r l Hr _ IH]; [done|].
  rewrite filter_cons. case_decide; rewrite ?fmap_cons, ?sumZ_cons; lia.
Qed.

(** The totals that _calculateTotalPrice accumulates are doubles. *)
Lemma calculateTotalPrice_reduce_isDouble (l : list TicketTypeRequest) (acc acc' : number) :
  isDouble acc →
  reduce (λ acc r,
            match _getTicketPrice (getTicketType r) with
            | Return price => Return (add acc (mul (Num (noOfTickets r)) (ToNumber price)))
            | Throw e => Throw e
            end) l acc = Return acc' →
  isDouble acc'.
Proof.
  revert acc. induction l as [|r l IH]; intros acc Hacc; cbn [reduce].
  - by intros [= <-].
  - destruct (_getTicketPrice (getTicketType r)); [|done].
    apply IH, add_isDouble.
Qed.

(** X7: _getTicketPrice returns a number exactly for ADULT (20), CHILD (10)
    and INFANT (0); it returns [undefined] exactly for the property names
    that the table inherits; and it throws exactly for the other keys, an
    InvalidPurchaseException whose message ends with the key. *)
Theorem getTicketPrice_cases (c : string) :
  (∀ p, _getTicketPrice c = Return (VNumber (Num p))
        ↔ (c = "ADULT" ∧ p = 20) ∨ (c = "CHILD" ∧ p = 10) ∨ (c = "INFANT" ∧ p = 0))
  ∧ (_getTicketPrice c = Return VUndefined ↔ c ∈ ObjectPrototype)
  ∧ (∀ e, _getTicketPrice c = Throw e
          ↔ (c ∉ ["ADULT"; "CHILD"; "INFANT"]) ∧ (c ∉ ObjectPrototype)
            ∧ e = InvalidPurchaseException ("Invalid ticket type: " +:+ c)).
Proof.
  pose proof (in_table_lookup c) as Htable.
  unfold _getTicketPrice, Get.
  destruct (ticketTypes !! c) as [t|] eqn:Ht; cbn.
  - pose proof Ht as Hc. apply ticketTypes_lookup in Hc.
    assert (Hnp : c ∉ ObjectPrototype).
    { destruct Hc as [[-> _]|[[-> _]|[-> _]]]; by apply (bool_decide_unpack _). }
    split; [|split].
    + intros p. split.
      * intros [= <-]. destruct Hc as [[-> ->]|[[-> ->]|[-> ->]]]; cbn; tauto.
      * intros Hp. do 3 f_equal.
        destruct Hc as [[-> ->]|[[-> ->]|[-> ->]]];
          destruct Hp as [[? ->]|[[? ->]|[? ->]]]; done.
    + split; [done | intros ?; by destruct Hnp].
    + intros e. split; [done | intros [Hno _]; destruct Hno; by apply Htable].
  - assert (Hout : c ∉ ["ADULT"; "CHILD"; "INFANT"]).
    { intros Hin. apply Htable in Hin as [? [=]]. }
    clear Htable. case_bool_decide as Hp; cbn.
    + split; [|split].
      * intros p. split; [done|].
        intros [[-> _]|[[-> _]|[-> _]]]; discriminate Ht.
      * done.
      * intros e. split; [done | by intros (_ & ? & _)].
    + split; [|split].
      * intros p. split; [done|].
        intros [[-> _]|[[-> _]|[-> _]]]; discriminate Ht.
      * split; [done | intros ?; by destruct Hp].
      * intros e. split.
        -- by intros [= <-].
        -- by intros (_ & _ & ->).
Qed.

(** X8: on a request list whose categories are all ADULT, CHILD or INFANT
    and whose prices stay within the safe integers, _calculateTotalPrice
    returns 20 times the ADULT ticket count plus 10 times the CHILD ticket
    count. *)
Theorem calculateTotalPrice_by_category {AccountId : Type} (accountId : AccountId)
    (l : list TicketTypeRequest) :
  Forall (λ r, getTicketType r ∈ ["ADULT"; "CHILD"; "INFANT"]) l →
  safePrices l →
  _calculateTotalPrice accountId l
  = Return (Num (20 * sumZ (noOfTickets <$> filter (λ r, getTicketType r = "ADULT") l)
                 + 10 * sumZ (noOfTickets <$> filter (λ r, getTicketType r = "CHILD") l))).
Proof.
  intros Hall Hsafe. rewrite calculateTotalPrice_in_table.
  - by rewrite price_sum_by_category.
  - eapply Forall_impl; [exact Hall|]. intros r Hr. by apply in_table_lookup.
  - done.
Qed.

Lemma calculateTotalPrice_by_category_witness :
  _calculateTotalPrice "112233"
    [mkRequest "ADULT" 2; mkRequest "INFANT" 4; mkRequest "CHILD" 3]
  = Return (Num (20 * sumZ [2] + 10 * sumZ [3])).
Proof.
  apply (calculateTotalPrice_by_category "112233"
           [mkRequest "ADULT" 2; mkRequest "INFANT" 4; mkRequest "CHILD" 3]).
  - repeat constructor.
  - by vm_compute.
Defined.

(** X9: _calculateTotalPrice stops at the first request whose category is
    neither in the table nor inherited and throws the exception that names
    that category, whatever follows it in the list. *)
Theorem calculateTotalPrice_first_invalid {AccountId : Type} (accountId : AccountId)
    (l1 l2 : list TicketTypeRequest) (r : TicketTypeRequest) :
  Forall (λ r', getTicketType r' ∈ ["ADULT"; "CHILD"; "INFANT"]
                ∨ getTicketType r' ∈ ObjectPrototype) l1 →
  getTicketType r ∉ ["ADULT"; "CHILD"; "INFANT"] →
  getTicketType r ∉ ObjectPrototype →
  _calculateTotalPrice accountId (l1 ++ r :: l2)
  = Throw (InvalidPurchaseException ("Invalid ticket type: " +:+ getTicketType r)).
Proof.
  intros Hl1 Hr1 Hr2. unfold _calculateTotalPrice. rewrite reduce_app.
  generalize (Num 0). induction Hl1 as [|r' l1 Hr' _ IH]; intros acc; cbn [reduce].
  - rewrite getTicketPrice_missing; [done| |done].
    destruct (ticketTypes !! getTicketType r) eqn:Ht; [|done].
    destruct Hr1. apply in_table_lookup. by eexists.
  - destruct (getTicketPrice_returns _ Hr') as [v ->]. apply IH.
Qed.

Lemma calculateTotalPrice_first_invalid_witness :
  _calculateTotalPrice "112233"
    ([mkRequest "ADULT" 1] ++ mkRequest "SENIOR" 1 :: [mkRequest "STUDENT" 1])
  = Throw (InvalidPurchaseException ("Invalid ticket type: " +:+ "SENIOR")).
Proof.
  apply (calculateTotalPrice_first_invalid "112233"
           [mkRequest "ADULT" 1] [mkRequest "STUDENT" 1] (mkRequest "SENIOR" 1)).
  - repeat constructor.
  - by apply (bool_decide_unpack _).
  - by apply (bool_decide_unpack _).
Defined.

(** X10: INFANT tickets are free: adding an INFANT request anywhere in a
    list, with any count, leaves the result of _calculateTotalPrice (a total
    or an exception) unchanged. *)
Theorem calculateTotalPrice_infant_free {AccountId : Type} (accountId : AccountId)
    (l1 l2 : list TicketTypeRequest) (n : Z) :
  _calculateTotalPrice accountId (l1 ++ mkRequest "INFANT" n :: l2)
  = _calculateTotalPrice accountId (l1 ++ l2).
Proof.
  unfold _calculateTotalPrice. rewrite !reduce_app.
  destruct (reduce _ l1 (Num 0)) as [acc|e] eqn:Hl1; [|done].
  apply calculateTotalPrice_reduce_isDouble in Hl1; [|by vm_compute].
  cbn [reduce getTicketType noOfTickets].
  replace (_getTicketPrice "INFANT") with (Return (VNumber (Num 0)) : completion value)
    by (by vm_compute).
  cbn [ToNumber mul]. rewrite Z.mul_0_r.
  change (nearestDouble 0) with (Num 0). by rewrite add_0_r.
Qed.

(** X11: on a request list with categories ADULT, CHILD or INFANT, no
    negative count and prices within the safe integers, the total price lies
    between 10 and 20 times the number of seats reserved. *)
Theorem price_between_10_and_20_per_seat {AccountId : Type} (accountId : AccountId)
    (l : list TicketTypeRequest) :
  Forall (λ r, getTicketType r ∈ ["ADULT"; "CHILD"; "INFANT"]) l →
  Forall (λ r, 0 ≤ noOfTickets r) l →
  safePrices l →
  ∃ p seats, _calculateTotalPrice accountId l = Return (Num p)
             ∧ seatsToReserve l = Num seats
             ∧ 10 * seats ≤ p ≤ 20 * seats.
Proof.
  intros Hcat Hpos Hsafe. eexists _, _.
  split; [by apply calculateTotalPrice_categories|].
  split; [by apply seatsToReserve_exact, safePrices_safeCounts|].
  rewrite seats_sum_by_category.
  pose proof (sumZ_filter_nonneg (λ r, getTicketType r = "ADULT") l Hpos).
  pose proof (sumZ_filter_nonneg (λ r, getTicketType r = "CHILD") l Hpos). lia.
Qed.

Lemma price_between_10_and_20_per_seat_witness :
  ∃ p seats,
    _calculateTotalPrice "112233" [mkRequest "ADULT" 2; mkRequest "CHILD" 3]
    = Return (Num p)
    ∧ seatsToReserve [mkRequest "ADULT" 2; mkRequest "CHILD" 3] = Num seats
    ∧ 10 * seats ≤ p ≤ 20 * seats.
Proof.
  apply (price_between_10_and_20_per_seat "112233"
           [mkRequest "ADULT" 2; mkRequest "CHILD" 3]).
  - repeat constructor.
  - repeat constructor; by vm_compute.
  - by vm_compute.
Defined.

(** ** Further properties of purchase *)

Section PurchaseProperties.

Context {AccountId World : Type}.
Variable ticketPaymentService_pay : AccountId -> number -> World -> World * settled.
Variable seatReservationService_reserveSeats : number -> World -> World * settled.

(** The run of purchase, case by case. *)
Ltac purchase_cases a l s :=
  unfold purchase;
  destruct (_validatePurchase l) as [[]|ev] eqn:Hv; cbn [ret fst snd];
  [ destruct (_calculateTotalPrice a l) as [p|ep] eqn:Hp; cbn [ret fst snd];
    [ unfold bind, catch_, then_, bind, pay, _reserveSeats, reserveSeats, ret;
      destruct (ticketPaymentService_pay a p (world s)) as [w [|error]] eqn:Hpay;
      cbn [world calls fst snd];
      [ destruct (seatReservationService_reserveSeats (seatsToReserve l) w)
          as [w' [|error]] eqn:Hres; cbn [world calls fst snd]
      | ]
    | ]
  | ].

(** X12: on a request list that passes validation, whose categories are
    all ADULT, CHILD or INFANT and whose prices stay within the safe
    integers, when both collaborators resolve, purchase calls payment once
    with 20 per ADULT ticket plus 10 per CHILD ticket, then reservation once
    with one seat per ADULT or CHILD ticket, the second in the world the
    first has left, and its promise is fulfilled. *)
Theorem purchase_succeeds (accountId : AccountId) (l : list TicketTypeRequest)
    (s : state AccountId World) (w w' : World) :
  let adults := sumZ (noOfTickets <$> filter (λ r, getTicketType r = "ADULT") l) in
  let children := sumZ (noOfTickets <$> filter (λ r, getTicketType r = "CHILD") l) in
  _validatePurchase l = Return tt →
  Forall (λ r, getTicketType r ∈ ["ADULT"; "CHILD"; "INFANT"]) l →
  safePrices l →
  ticketPaymentService_pay accountId (Num (20 * adults + 10 * children)) (world s)
  = (w, Fulfilled) →
  seatReservationService_reserveSeats (Num (adults + children)) w = (w', Fulfilled) →
  purchase ticketPaymentService_pay seatReservationService_reserveSeats accountId l s
  = (Promise Fulfilled,
     mkState w' (calls s ++ [Pay accountId (Num (20 * adults + 10 * children));
                             ReserveSeats (Num (adults + children))])).
Proof.
  intros adults children Hv Hcat Hsafe Hpay Hres. subst adults children.
  rewrite <- seats_sum_by_category in *.
  rewrite <- (seatsToReserve_exact l (safePrices_safeCounts l Hsafe)) in *.
  by rewrite (purchase_reservation_settles _ _ accountId l s _ w w' Fulfilled Hv
                (calculateTotalPrice_categories accountId l Hcat Hsafe) Hpay Hres).
Qed.

(** X13: when the reservation collaborator rejects after payment has
    resolved, the payment call has been made and stays made: the log holds the
    payment call followed by the reservation call and nothing else, and the
    promise is rejected with the reservation error's message. *)
Theorem purchase_reservation_failure_keeps_payment (accountId : AccountId)
    (l : list TicketTypeRequest) (s : state AccountId World)
    (totalPrice : number) (w w' : World) (error : exn) :
  _validatePurchase l = Return tt →
  _calculateTotalPrice accountId l = Return totalPrice →
  ticketPaymentService_pay accountId totalPrice (world s) = (w, Fulfilled) →
  seatReservationService_reserveSeats (seatsToReserve l) w = (w', Rejected error) →
  purchase ticketPaymentService_pay seatReservationService_reserveSeats accountId l s
  = (Promise (Rejected (InvalidPurchaseException (message error))),
     mkState w' (calls s ++ [Pay accountId totalPrice; ReserveSeats (seatsToReserve l)])).
Proof.
  intros Hv Hp Hpay Hres.
  by rewrite (purchase_reservation_settles _ _ accountId l s _ w w' _ Hv Hp Hpay Hres).
Qed.

(** X14: a purchase call only ever appends to the call log, and what it
    appends is nothing, or one payment call with the computed total, or that
    payment call followed by one reservation call: it never reserves without
    having paid and never calls a collaborator twice. *)
Theorem purchase_calls_shape (accountId : AccountId) (l : list TicketTypeRequest)
    (s : state AccountId World) :
  (purchase ticketPaymentService_pay seatReservationService_reserveSeats
     accountId l s).2 = s
  ∨ ∃ totalPrice,
      _calculateTotalPrice accountId l = Return totalPrice
      ∧ (calls (purchase ticketPaymentService_pay seatReservationService_reserveSeats
                  accountId l s).2
         = calls s ++ [Pay accountId totalPrice]
         ∨ calls (purchase ticketPaymentService_pay seatReservationService_reserveSeats
                    accountId l s).2
           = calls s ++ [Pay accountId totalPrice; ReserveSeats (seatsToReserve l)]).
Proof.
  purchase_cases accountId l s; try (by left); right; exists p; (split; [done|]).
  - right. by rewrite <- app_assoc.
  - right. by rewrite <- app_assoc.
  - by left.
Qed.

(** X15: the promise of purchase is fulfilled exactly when validation
    passes, the total price is computed, the payment collaborator resolves on
    it and the reservation collaborator then resolves on the seat count. *)
Theorem purchase_fulfilled_iff (accountId : AccountId) (l : list TicketTypeRequest)
    (s : state AccountId World) :
  (purchase ticketPaymentService_pay seatReservationService_reserveSeats
     accountId l s).1 = Promise Fulfilled
  ↔ _validatePurchase l = Return tt
    ∧ ∃ totalPrice w w',
        _calculateTotalPrice accountId l = Return totalPrice
        ∧ ticketPaymentService_pay accountId totalPrice (world s) = (w, Fulfilled)
        ∧ seatReservationService_reserveSeats (seatsToReserve l) w = (w', Fulfilled).
Proof.
  purchase_cases accountId l s.
  - split; [intros _|done]. split; [done|]. by exists p, w, w'.
  - split; [done|]. intros (_ & p' & w1 & w2 & [= <-] & Hpay' & Hres').
    rewrite Hpay in Hpay'. injection Hpay' as <-. rewrite Hres in Hres'. discriminate.
  - split; [done|]. intros (_ & p' & w1 & w2 & [= <-] & Hpay' & _).
    rewrite Hpay in Hpay'. discriminate.
  - split; [done|]. by intros (_ & p' & w1 & w2 & ? & _).
  - split; [done|]. by intros [? _].
Qed.

(** X16: purchase throws exactly the exception that validation throws or,
    validation passed, that the price computation throws; otherwise it
    returns a promise, and a rejected one always carries an
    InvalidPurchaseException. *)
Theorem purchase_thrown_iff (accountId : AccountId) (l : list TicketTypeRequest)
    (s : state AccountId World) :
  (∀ e, (purchase ticketPaymentService_pay seatReservationService_reserveSeats
           accountId l s).1 = Thrown e
        ↔ _validatePurchase l = Throw e
          ∨ (_validatePurchase l = Return tt ∧ _calculateTotalPrice accountId l = Throw e))
  ∧ (∀ e, (purchase ticketPaymentService_pay seatReservationService_reserveSeats
             accountId l s).1 = Promise (Rejected e)
          → ∃ m, e = InvalidPurchaseException m).
Proof.
  purchase_cases accountId l s; (split; [intros e; split|intros e]);
    try done; try (intros [[=]|[_ [=]]]; done);
    try (intros [= <-]; by eexists).
  - intros [= <-]. by right.
  - intros [[=]|[_ [= <-]]]. done.
  - intros [= <-]. by left.
  - intros [[= <-]|[[=] _]]. done.
Qed.

End PurchaseProperties.

Lemma purchase_succeeds_witness :
  purchase (λ _ : string, stub_resolves) stub_resolves "accountId"
    [mkRequest "ADULT" 2; mkRequest "CHILD" 1] (mkState 0%nat [])
  = (Promise Fulfilled,
     mkState 2%nat ([] ++ [Pay "accountId" (Num (20 * sumZ [2] + 10 * sumZ [1]));
                           ReserveSeats (Num (sumZ [2] + sumZ [1]))])).
Proof.
  apply (purchase_succeeds (λ _ : string, stub_resolves) stub_resolves "accountId"
           [mkRequest "ADULT" 2; mkRequest "CHILD" 1] (mkState 0%nat []) 1%nat 2%nat).
  - by vm_compute.
  - repeat constructor.
  - by vm_compute.
  - reflexivity.
  - reflexivity.
Defined.

Lemma purchase_reservation_failure_keeps_payment_witness :
  purchase (λ _ : string, stub_resolves) (stub_rejects (Error "No seats left"))
    "112233" [mkRequest "ADULT" 2] (mkState 0%nat [])
  = (Promise (Rejected (InvalidPurchaseException (message (Error "No seats left")))),
     mkState 2%nat ([] ++ [Pay "112233" (Num 40);
                           ReserveSeats (seatsToReserve [mkRequest "ADULT" 2])])).
Proof.
  apply (purchase_reservation_failure_keeps_payment
           (λ _ : string, stub_resolves) (stub_rejects (Error "No seats left"))
           "112233" [mkRequest "ADULT" 2] (mkState 0%nat []) (Num 40) 1%nat 2%nat
           (Error "No seats left")); reflexivity.
Defined.
